(** * safe-env: the environment-variable checker of [src/index.ts]

    A shallow embedding of [formatErrorMessage], [getEnvSource], [checkEnv],
    [checkEnvSafe] and [checkEnvSource], and the properties of them that the
    specification states.

    Modelling choices.
    - A JavaScript string is a [string]; [startsWith] compares code units
      from the left, which is [String.prefix].
    - A value of type [string | undefined] is an [option string], [None]
      being [undefined].
    - An object of type [Record<string, string | undefined>] is an [Env]:
      its own enumerable properties, in the order [Object.keys] lists them,
      and its prototype chain.  A key bound to [undefined] is a property
      ([Object.keys] lists it); a key that is not bound is not.  The chain
      is made of objects with data properties and ends in [null] or in the
      built-in [Object.prototype], with the properties the language gives
      it.  An object literal, [{}] and [process.env] end in
      [Object.prototype]; [Object.create(null)] has no prototype.
    - Reading [o[k]] walks the chain, so it can give a value that is
      neither a string nor [undefined]: a [value] is [Undefined], a string
      or [Other] (a function or an object, which is truthy).
    - Writing [o[k] = v] creates or updates an own property, except where
      the chain reaches the accessor [__proto__] of [Object.prototype]:
      its setter ignores a value that is not an object.
    - [console.error], [console.warn] and [process.exit] are the three
      observable events.  A computation is the list of events it emitted,
      with either the value it returned or the fact that the process was
      terminated. *)

From Stdlib Require Import List String Ascii Bool Arith ZArith Lia.
From Stdlib Require Import Permutation.
Import ListNotations.
Local Open Scope list_scope.
Local Open Scope string_scope.

Set Implicit Arguments.

(* ================================================================== *)
(** ** Values and objects *)

(** Truthiness of a [string | undefined]: [undefined] and the empty string
    are falsy, every other string is truthy. *)
Definition truthy (v : option string) : bool :=
  match v with
  | None => false
  | Some EmptyString => false
  | Some (String _ _) => true
  end.

(** [s.startsWith(p)]. *)
Definition startsWith (s p : string) : bool := String.prefix p s.

(** What reading a property can give: [undefined], a string, or a function
    or an object. *)
Inductive value : Type :=
| Undefined
| Str (s : string)
| Other.

(** A [string | undefined] as a value. *)
Definition of_own (v : option string) : value :=
  match v with
  | None => Undefined
  | Some s => Str s
  end.

(** Truthiness of a value that was read. *)
Definition truthy_value (v : value) : bool :=
  match v with
  | Undefined => false
  | Str s => truthy (Some s)
  | Other => true
  end.

(** A value at its declared type [string | undefined], as the assignment
    to a [Record<string, string | undefined>] takes it.  The own properties
    of such a record hold nothing else, so the last case is not met by a
    value read at an own key. *)
Definition declared (v : value) : option string :=
  match v with
  | Str s => Some s
  | Undefined => None
  | Other => None
  end.

(** A prototype chain: no prototype, the built-in [Object.prototype], or
    an object with the data properties [props] and its own chain. *)
Inductive Prototype : Type :=
| NullPrototype
| ObjectPrototype
| Inherits (props : list (string * option string)) (next : Prototype).

(** [Record<string, string | undefined>]. *)
Record Env : Type := {
  proto : Prototype;
  own : list (string * option string)
}.

(** An ordinary object whose prototype is [Object.prototype], with the
    own properties [entries]: an object literal [{ k1: v1, ... }], or what
    [JSON.parse] gives, which is how an own key [__proto__] comes about.
    [literal []] is [{}]. *)
Definition literal (entries : list (string * option string)) : Env :=
  {| proto := ObjectPrototype; own := entries |}.

(** The property names of the built-in [Object.prototype].  All are bound
    to functions, except [__proto__], an accessor whose getter gives the
    prototype of the object that is read, itself an object. *)
Definition object_prototype_names : list string :=
  ["constructor"; "__defineGetter__"; "__defineSetter__"; "hasOwnProperty";
   "__lookupGetter__"; "__lookupSetter__"; "isPrototypeOf";
   "propertyIsEnumerable"; "toString"; "valueOf"; "__proto__";
   "toLocaleString"].

Definition is_builtin (k : string) : bool :=
  existsb (String.eqb k) object_prototype_names.

(** The property [k] among [entries], when there is one. *)
Fixpoint own_get (entries : list (string * option string)) (k : string)
  : option (option string) :=
  match entries with
  | [] => None
  | (k', v) :: entries' =>
      if String.eqb k' k then Some v else own_get entries' k
  end.

(** Reading [k] along a prototype chain. *)
Fixpoint get_proto (chain : Prototype) (k : string) : value :=
  match chain with
  | NullPrototype => Undefined
  | ObjectPrototype => if is_builtin k then Other else Undefined
  | Inherits props next =>
      match own_get props k with
      | Some v => of_own v
      | None => get_proto next k
      end
  end.

(** [o[k]]: the own property [k], else the one the chain gives, else
    [undefined]. *)
Definition get (o : Env) (k : string) : value :=
  match own_get (own o) k with
  | Some v => of_own v
  | None => get_proto (proto o) k
  end.

(** An existing property keeps its place, a new one is added after the
    others. *)
Fixpoint put (entries : list (string * option string)) (k : string)
  (v : option string) : list (string * option string) :=
  match entries with
  | [] => [(k, v)]
  | (k', v') :: entries' =>
      if String.eqb k' k then (k', v) :: entries'
      else (k', v') :: put entries' k v
  end.

(** Whether writing [__proto__] along [chain] meets the setter of
    [Object.prototype] before any data property of that name. *)
Fixpoint reaches_proto_setter (chain : Prototype) : bool :=
  match chain with
  | NullPrototype => false
  | ObjectPrototype => true
  | Inherits props next =>
      match own_get props "__proto__" with
      | Some _ => false
      | None => reaches_proto_setter next
      end
  end.

(** [o[k] = v], for [v] a string or [undefined]: an own property is
    updated; otherwise [__proto__] goes to the inherited setter when the
    chain has it, which does nothing with such a value, and any other key
    becomes a new own property. *)
Definition set (o : Env) (k : string) (v : option string) : Env :=
  match own_get (own o) k with
  | Some _ => {| proto := proto o; own := put (own o) k v |}
  | None =>
      if String.eqb k "__proto__" && reaches_proto_setter (proto o)
      then o
      else {| proto := proto o; own := put (own o) k v |}
  end.

(** [Object.keys(o)]. *)
Definition Object_keys (o : Env) : list string := map fst (own o).

(* ================================================================== *)
(** ** Effects *)

Inductive event : Type :=
| ConsoleError (text : string)
| ConsoleWarn (text : string)
| ProcessExit (code : Z).

Inductive completion (A : Type) : Type :=
| Returned (a : A)
| Terminated.

Arguments Terminated {A}.

(** The events emitted so far, and how the computation ended. *)
Definition Eff (A : Type) : Type := (list event * completion A)%type.

Definition ret {A} (a : A) : Eff A := ([], Returned a).

(** Sequencing: nothing runs after the process has been terminated. *)
Definition bind {A B} (m : Eff A) (k : A -> Eff B) : Eff B :=
  match m with
  | (t, Returned a) => let (t', c) := k a in ((t ++ t')%list, c)
  | (t, Terminated) => (t, Terminated)
  end.

Declare Scope eff_scope.
Delimit Scope eff_scope with eff.
Notation "m ;; k" := (bind m (fun _ => k))
  (at level 61, right associativity) : eff_scope.
Local Open Scope eff_scope.

Definition console_error (text : string) : Eff unit :=
  ([ConsoleError text], Returned tt).

Definition console_warn (text : string) : Eff unit :=
  ([ConsoleWarn text], Returned tt).

Definition process_exit (code : Z) : Eff unit :=
  ([ProcessExit code], Terminated).

(** [if (b) { m }]. *)
Definition when (b : bool) (m : Eff unit) : Eff unit :=
  if b then m else ret tt.

Definition events {A} (m : Eff A) : list event := fst m.
Definition outcome {A} (m : Eff A) : completion A := snd m.

(* ================================================================== *)
(** ** The interfaces *)

Record CheckEnvOptions : Type := {
  prefix : option string;
  source : option Env;
  exitOnError : option bool
}.

Record CheckEnvResult : Type := {
  missing : list string;
  success : bool
}.

(** [{}], the default value of the [options] parameter. *)
Definition no_options : CheckEnvOptions :=
  {| prefix := None; source := None; exitOnError := None |}.

(* ================================================================== *)
(** ** formatErrorMessage *)

Definition LF : string := String (ascii_of_nat 10) EmptyString.

Definition banner : string := "☠️  ENVIRONMENT VARIABLES MISSING ☠️".
Definition separator : string := "───────────────────────────────────".
Definition marker : string := "❌ ".

(** [missing.map((v) => `❌ ${v}`).join("\n")] sits between the two
    separator lines of the template literal, which opens and closes with a
    line feed. *)
Definition formatErrorMessage (missing : list string) : string :=
  LF ++ banner ++ LF
     ++ separator ++ LF
     ++ String.concat LF (map (fun v => marker ++ v) missing) ++ LF
     ++ separator ++ LF.

(* ================================================================== *)
(** ** getEnvSource, checkEnv, checkEnvSafe, checkEnvSource *)

Section Checker.

(** [process.env], the ambient environment. *)
Variable process_env : Env.

Definition getEnvSource (source : option Env) (prefix : option string)
  : Env :=
  let envSource := match source with Some o => o | None => process_env end in
  if negb (truthy prefix) then envSource
  else
    let p := match prefix with Some p => p | None => "" end in
    fold_left
      (fun filteredEnv key =>
         if startsWith key p
         then set filteredEnv key (declared (get envSource key))
         else filteredEnv)
      (Object_keys envSource) (literal []).

Definition checkEnv (requiredVars : list string) (options : CheckEnvOptions)
  : Eff CheckEnvResult :=
  let prefix := options.(prefix) in
  let source := options.(source) in
  let exitOnError :=
    match options.(exitOnError) with Some b => b | None => true end in
  let envSource := getEnvSource source prefix in
  let varsToCheck :=
    if truthy prefix
    then
      let p := match prefix with Some p => p | None => "" end in
      filter (fun v => startsWith v p) requiredVars
    else requiredVars in
  let missing :=
    filter (fun v => negb (truthy_value (get envSource v))) varsToCheck in
  let success := Nat.eqb (List.length missing) 0 in
  when (negb success && exitOnError)
       (console_error (formatErrorMessage missing) ;; process_exit 1) ;;
  when (negb success && negb exitOnError)
       (console_warn (formatErrorMessage missing)) ;;
  ret {| missing := missing; success := success |}.

(** [{ ...options, exitOnError: false }] *)
Definition checkEnvSafe (requiredVars : list string)
  (options : CheckEnvOptions) : Eff CheckEnvResult :=
  checkEnv requiredVars
    {| prefix := options.(prefix);
       source := options.(source);
       exitOnError := Some false |}.

(** [{ ...options, source }] *)
Definition checkEnvSource (source : Env) (options : CheckEnvOptions)
  : Eff CheckEnvResult :=
  let requiredVars := Object_keys source in
  checkEnv requiredVars
    {| prefix := options.(prefix);
       source := Some source;
       exitOnError := options.(exitOnError) |}.

End Checker.

(* ================================================================== *)
(** ** Notions the statements are written with *)

(** The name filter of [checkEnv]: with a truthy prefix a name is kept when
    it starts with it, otherwise every name is kept. *)
Definition kept (prefix : option string) (v : string) : bool :=
  match prefix with
  | Some (String c p) => startsWith v (String c p)
  | _ => true
  end.

(** The object [source || process.env] that [getEnvSource] starts from. *)
Definition base (process_env : Env) (source : option Env) : Env :=
  match source with Some o => o | None => process_env end.

(** The value of the local constant [varsToCheck] of [checkEnv]. *)
Definition varsToCheck (prefix : option string) (requiredVars : list string)
  : list string :=
  if truthy prefix
  then
    let p := match prefix with Some p => p | None => "" end in
    filter (fun v => startsWith v p) requiredVars
  else requiredVars.

(** The value of the local constant [missing] of [checkEnv]. *)
Definition missingVars (process_env : Env) (requiredVars : list string)
  (options : CheckEnvOptions) : list string :=
  filter
    (fun v =>
       negb (truthy_value
               (get (getEnvSource process_env options.(source) options.(prefix))
                    v)))
    (varsToCheck options.(prefix) requiredVars).

(** The value of the local constant [exitOnError] of [checkEnv]. *)
Definition exits (options : CheckEnvOptions) : bool :=
  match options.(exitOnError) with Some b => b | None => true end.

(** The three ways a call can end, by the missing names and the exit
    policy. *)
Definition conclude (missing : list string) (exitOnError : bool)
  : Eff CheckEnvResult :=
  match missing with
  | [] => ([], Returned {| missing := []; success := true |})
  | _ :: _ =>
      if exitOnError
      then ([ConsoleError (formatErrorMessage missing); ProcessExit 1],
            Terminated)
      else ([ConsoleWarn (formatErrorMessage missing)],
            Returned {| missing := missing; success := false |})
  end.

(** The call that writes nothing and returns [{missing: [], success: true}]. *)
Definition silent : Eff CheckEnvResult :=
  ([], Returned {| missing := []; success := true |}).

(** The texts written to the console, on either channel, in order. *)
Fixpoint console_writes (t : list event) : list string :=
  match t with
  | [] => []
  | ConsoleError text :: t' => text :: console_writes t'
  | ConsoleWarn text :: t' => text :: console_writes t'
  | ProcessExit _ :: t' => console_writes t'
  end.


(** [Selects P l m]: [m] is [l] with the elements that do not satisfy [P]
    struck out, order and repetitions untouched. *)
Inductive Selects (P : string -> Prop) : list string -> list string -> Prop :=
| Selects_nil : Selects P [] []
| Selects_keep x l m : P x -> Selects P l m -> Selects P (x :: l) (x :: m)
| Selects_drop x l m : ~ P x -> Selects P l m -> Selects P (x :: l) m.

(** [{ ...options, exitOnError: b }] and [{ ...options, source }]. *)
Definition with_exitOnError (options : CheckEnvOptions) (b : bool)
  : CheckEnvOptions :=
  {| prefix := options.(prefix);
     source := options.(source);
     exitOnError := Some b |}.

Definition with_source (options : CheckEnvOptions) (o : Env)
  : CheckEnvOptions :=
  {| prefix := options.(prefix);
     source := Some o;
     exitOnError := options.(exitOnError) |}.

(** [text.split("\n")]. *)
Fixpoint lines (text : string) : list string :=
  match text with
  | EmptyString => [EmptyString]
  | String c text' =>
      if Ascii.eqb c (ascii_of_nat 10) then EmptyString :: lines text'
      else
        match lines text' with
        | l :: ls => String c l :: ls
        | [] => [String c EmptyString]
        end
  end.

(** No line feed in [s]. *)
Fixpoint no_LF (s : string) : bool :=
  match s with
  | EmptyString => true
  | String c s' => negb (Ascii.eqb c (ascii_of_nat 10)) && no_LF s'
  end.

(** [text.includes(s)]. *)
Fixpoint includes (text s : string) : bool :=
  match text with
  | EmptyString => String.prefix s EmptyString
  | String c text' => String.prefix s text || includes text' s
  end.

(** The lines the specification lists for the diagnostic of [missing]: the
    template opens and closes with a line feed, hence the empty first and
    last lines. *)
Definition block_lines (missing : list string) : list string :=
  ([""; banner; separator]
     ++ map (fun v => (marker ++ v)%string) missing
     ++ [separator; ""])%list.

(** [checkEnv] as the claim on the redundancy of the source filter words
    it: the names are narrowed by the prefix, the source is not. *)
Definition checkEnvUnfiltered (process_env : Env) (requiredVars : list string)
  (options : CheckEnvOptions) : Eff CheckEnvResult :=
  let envSource := base process_env options.(source) in
  conclude
    (filter (fun v => negb (truthy_value (get envSource v)))
            (varsToCheck options.(prefix) requiredVars))
    (exits options).

(** The keys of [o] bound to [undefined] or to the empty string. *)
Definition falsy_keys (o : Env) : list string :=
  map fst (filter (fun kv => negb (truthy (snd kv))) (own o)).

(** Whether [k] is one of the keys [Object.keys(o)] lists. *)
Definition is_own_key (o : Env) (k : string) : bool :=
  existsb (String.eqb k) (Object_keys o).

(** What [checkEnv] reads for a name [v] that passed the prefix filter.
    Without a truthy prefix it reads [envSource] itself.  With one it reads
    the filtered copy, a fresh [{}] that was given the own properties of
    [envSource] except [__proto__]: any other name reads as in [{}]. *)
Definition checked_value (envSource : Env) (prefix : option string)
  (v : string) : value :=
  if truthy prefix
  then
    if is_own_key envSource v && negb (String.eqb v "__proto__")
    then get envSource v
    else get (literal []) v
  else get envSource v.

(** The keys of a map that [checkEnvSource] can report: the keys that pass
    the prefix filter, [__proto__] left out when there is a truthy
    prefix. *)
Definition reported (prefix : option string) (k : string) : bool :=
  kept prefix k && negb (truthy prefix && String.eqb k "__proto__").

(** An object made with [Object.create(null)] and given [entries]. *)
Definition bare (entries : list (string * option string)) : Env :=
  {| proto := NullPrototype; own := entries |}.


(** The objects the loop of [getEnvSource] goes through: made from [{}],
    with no own [__proto__]. *)
Definition fresh (o : Env) : Prop :=
  proto o = ObjectPrototype /\ own_get (own o) "__proto__" = None.

(* ================================================================== *)
(** ** Objects: reading after writing *)

Section Objects.

Lemma own_get_put (entries : list (string * option string)) (k k' : string)
  (v : option string) :
  own_get (put entries k v) k'
  = if String.eqb k k' then Some v else own_get entries k'.
Proof.
  induction entries as [|[k0 v0] l IH]; simpl.
  - reflexivity.
  - destruct (String.eqb k0 k) eqn:E0; simpl.
    + apply String.eqb_eq in E0; subst k0.
      destruct (String.eqb k k'); reflexivity.
    + destruct (String.eqb k0 k') eqn:E1.
      * apply String.eqb_eq in E1; subst k0.
        rewrite String.eqb_sym, E0. reflexivity.
      * exact IH.
Qed.

Lemma own_get_not_key (entries : list (string * option string))
  (k : string) :
  existsb (String.eqb k) (map fst entries) = false -> own_get entries k = None.
Proof.
  induction entries as [|[k0 v0] l IH]; simpl; intro H.
  - reflexivity.
  - apply orb_false_elim in H as [H0 H1].
    rewrite String.eqb_sym, H0. auto.
Qed.

Lemma own_get_key (entries : list (string * option string)) (k : string) :
  existsb (String.eqb k) (map fst entries) = true ->
  exists v, own_get entries k = Some v.
Proof.
  induction entries as [|[k0 v0] l IH]; simpl; intro H.
  - discriminate.
  - rewrite (String.eqb_sym k k0) in H.
    destruct (String.eqb k0 k); [eauto | auto].
Qed.

Lemma own_get_In (entries : list (string * option string)) (k : string)
  (v : option string) :
  NoDup (map fst entries) -> In (k, v) entries -> own_get entries k = Some v.
Proof.
  induction entries as [|[k0 v0] l IH]; simpl; intros ND HIn.
  - contradiction.
  - inversion ND as [|? ? Hnot ND']; subst.
    destruct HIn as [Heq|HIn].
    + inversion Heq; subst. rewrite String.eqb_refl. reflexivity.
    + destruct (String.eqb k0 k) eqn:E.
      * apply String.eqb_eq in E; subst k0.
        exfalso. apply Hnot. apply (in_map fst) in HIn. exact HIn.
      * auto.
Qed.

(** An own property hides what the chain holds. *)
Lemma get_own (o : Env) (k : string) (v : option string) :
  own_get (own o) k = Some v -> get o k = of_own v.
Proof.
  unfold get. intros ->. reflexivity.
Qed.

Lemma get_In (o : Env) (k : string) (v : option string) :
  NoDup (Object_keys o) -> In (k, v) (own o) -> get o k = of_own v.
Proof.
  intros ND HIn. apply get_own. apply own_get_In; assumption.
Qed.

Lemma declared_of_own (v : option string) : declared (of_own v) = v.
Proof.
  destruct v; reflexivity.
Qed.

(** What is read at an own key is a string or [undefined]. *)
Lemma get_own_key (o : Env) (k : string) :
  is_own_key o k = true -> of_own (declared (get o k)) = get o k.
Proof.
  intros H. apply own_get_key in H as [v Hv].
  rewrite (get_own o k Hv), declared_of_own. reflexivity.
Qed.

Lemma set_fresh (o : Env) (k : string) (v : option string) :
  fresh o ->
  set o k v
  = if String.eqb k "__proto__" then o else literal (put (own o) k v).
Proof.
  intros [Hp Ho]. unfold set, literal. rewrite Hp.
  destruct (String.eqb k "__proto__") eqn:E.
  - apply String.eqb_eq in E; subst k. rewrite Ho. reflexivity.
  - simpl. destruct (own_get (own o) k); reflexivity.
Qed.

Lemma fresh_set (o : Env) (k : string) (v : option string) :
  fresh o -> fresh (set o k v).
Proof.
  intros H. rewrite (set_fresh k v H).
  destruct (String.eqb k "__proto__") eqn:E; [exact H|].
  split; [reflexivity|]. simpl. rewrite own_get_put, E. apply H.
Qed.

Lemma get_set_fresh (o : Env) (k k' : string) (v : option string) :
  fresh o ->
  get (set o k v) k'
  = if String.eqb k k' && negb (String.eqb k "__proto__")
    then of_own v else get o k'.
Proof.
  intros H. rewrite (set_fresh k v H).
  destruct (String.eqb k "__proto__") eqn:E.
  - rewrite andb_false_r. reflexivity.
  - rewrite andb_true_r. unfold get, literal. simpl.
    rewrite own_get_put. destruct H as [-> _].
    destruct (String.eqb k k'); reflexivity.
Qed.

Lemma fresh_empty : fresh (literal []).
Proof.
  split; reflexivity.
Qed.

End Objects.

(* ================================================================== *)
(** ** The source after the prefix filter *)

Section SourceFilter.

Variable process_env : Env.

(** The loop of [getEnvSource] started from a fresh [filteredEnv]: an own
    key of [envSource] among [keys] that starts with [p] and is not
    [__proto__] reads as in [envSource], any other key reads as before the
    loop. *)
Lemma get_filter_loop (envSource : Env) (p : string) (keys : list string) :
  forall (filteredEnv : Env) (k : string),
    fresh filteredEnv ->
    incl keys (Object_keys envSource) ->
    get (fold_left
           (fun acc key =>
              if startsWith key p
              then set acc key (declared (get envSource key)) else acc)
           keys filteredEnv) k
    = if startsWith k p && existsb (String.eqb k) keys
         && negb (String.eqb k "__proto__")
      then get envSource k else get filteredEnv k.
Proof.
  induction keys as [|key keys IH]; intros acc k Hf Hk; simpl.
  - rewrite andb_false_r. reflexivity.
  - assert (Hkeys : incl keys (Object_keys envSource))
      by (intros x Hx; apply Hk; right; exact Hx).
    assert (Hown : is_own_key envSource key = true).
    { unfold is_own_key. apply existsb_exists. exists key.
      split; [apply Hk; left; reflexivity | apply String.eqb_refl]. }
    destruct (startsWith key p) eqn:Skey.
    + rewrite IH by (try apply fresh_set; assumption).
      rewrite (get_set_fresh _ _ _ Hf), (get_own_key _ _ Hown).
      destruct (String.eqb k key) eqn:E.
      * apply String.eqb_eq in E; subst key. rewrite Skey, String.eqb_refl.
        simpl. destruct (existsb (String.eqb k) keys); simpl;
          destruct (String.eqb k "__proto__"); reflexivity.
      * rewrite (String.eqb_sym key k), E. simpl. reflexivity.
    + rewrite IH by assumption.
      destruct (String.eqb k key) eqn:E; [|reflexivity].
      apply String.eqb_eq in E; subst key. rewrite Skey. reflexivity.
Qed.

(** Reading the source that [getEnvSource] returns. *)
Lemma get_getEnvSource (source : option Env) (prefix : option string)
  (k : string) :
  get (getEnvSource process_env source prefix) k
  = if truthy prefix
    then
      if kept prefix k
         && is_own_key (base process_env source) k
         && negb (String.eqb k "__proto__")
      then get (base process_env source) k
      else get (literal []) k
    else get (base process_env source) k.
Proof.
  unfold getEnvSource, kept, base.
  destruct prefix as [[|c p]|]; simpl; try reflexivity.
  rewrite get_filter_loop by (apply fresh_empty || apply incl_refl).
  reflexivity.
Qed.

Lemma get_getEnvSource_kept (source : option Env) (prefix : option string)
  (k : string) :
  kept prefix k = true ->
  get (getEnvSource process_env source prefix) k
  = checked_value (base process_env source) prefix k.
Proof.
  intros K. rewrite get_getEnvSource, K. reflexivity.
Qed.

End SourceFilter.

(* ================================================================== *)
(** ** How a call ends *)

Section Conclusion.

Variable process_env : Env.

Lemma filter_all (A : Type) (l : list A) : filter (fun _ => true) l = l.
Proof.
  induction l as [|x l IH]; simpl; [reflexivity | now rewrite IH].
Qed.

(** The names that are checked are the names the filter keeps. *)
Lemma varsToCheck_kept (prefix : option string)
  (requiredVars : list string) :
  varsToCheck prefix requiredVars = filter (kept prefix) requiredVars.
Proof.
  unfold varsToCheck, kept.
  destruct prefix as [[|c p]|]; simpl;
    try (symmetry; apply filter_all); reflexivity.
Qed.

(** [checkEnv] ends as [conclude] says, on the names it found missing. *)
Lemma checkEnv_conclude (requiredVars : list string)
  (options : CheckEnvOptions) :
  checkEnv process_env requiredVars options
  = conclude (missingVars process_env requiredVars options) (exits options).
Proof.
  unfold checkEnv, missingVars, exits.
  fold (varsToCheck (prefix options) requiredVars).
  destruct (filter _ (varsToCheck _ _)) as [|v m]; simpl.
  - destruct (match exitOnError options with Some b => b | None => true end);
      reflexivity.
  - destruct (match exitOnError options with Some b => b | None => true end);
      reflexivity.
Qed.

Lemma checkEnvSafe_conclude (requiredVars : list string)
  (options : CheckEnvOptions) :
  checkEnvSafe process_env requiredVars options
  = conclude (missingVars process_env requiredVars options) false.
Proof.
  unfold checkEnvSafe. rewrite checkEnv_conclude. reflexivity.
Qed.

Lemma checkEnvSource_conclude (o : Env) (options : CheckEnvOptions) :
  checkEnvSource process_env o options
  = conclude
      (missingVars process_env (Object_keys o) (with_source options o))
      (exits options).
Proof.
  unfold checkEnvSource. rewrite checkEnv_conclude. reflexivity.
Qed.

(** The missing names, by what is read for each name that passed the name
    filter. *)
Lemma missingVars_eq (requiredVars : list string)
  (options : CheckEnvOptions) :
  missingVars process_env requiredVars options
  = filter
      (fun v =>
         negb (truthy_value
                 (checked_value (base process_env options.(source))
                    options.(prefix) v)))
      (varsToCheck options.(prefix) requiredVars).
Proof.
  unfold missingVars. rewrite varsToCheck_kept.
  induction requiredVars as [|v l IH]; simpl; [reflexivity|].
  destruct (kept (prefix options) v) eqn:K; simpl; [|exact IH].
  rewrite get_getEnvSource_kept, IH by exact K. reflexivity.
Qed.

Lemma missingVars_nil (options : CheckEnvOptions) :
  missingVars process_env [] options = [].
Proof.
  rewrite missingVars_eq, varsToCheck_kept. reflexivity.
Qed.

Lemma conclude_success (m : list string) (b : bool) (r : CheckEnvResult) :
  outcome (conclude m b) = Returned r ->
  missing r = m /\ success r = Nat.eqb (List.length m) 0.
Proof.
  destruct m as [|v m]; simpl.
  - intros H; inversion H; subst; simpl. auto.
  - destruct b; simpl; intros H; inversion H; subst; simpl. auto.
Qed.

Lemma conclude_exit_code (m : list string) (b : bool) (c : Z) :
  In (ProcessExit c) (events (conclude m b)) -> c = 1%Z.
Proof.
  destruct m as [|v m]; simpl; [contradiction|].
  destruct b; simpl.
  - intros [H|[H|[]]]; [discriminate | now inversion H].
  - intros [H|[]]; discriminate.
Qed.

End Conclusion.

(* ================================================================== *)
(** ** Selecting from a list *)

Section Selection.

Variable P : string -> Prop.



Lemma Selects_In (l m : list string) (x : string) :
  Selects P l m -> (In x m <-> In x l /\ P x).
Proof.
  induction 1 as [|y l m Py _ IH|y l m NPy _ IH]; simpl.
  - tauto.
  - split.
    + intros [->|H]; [tauto | apply IH in H; tauto].
    + intros [[->|H] Px]; [tauto | right; apply IH; tauto].
  - split.
    + intros H; apply IH in H; tauto.
    + intros [[->|H] Px]; [contradiction | apply IH; tauto].
Qed.

End Selection.


(* ================================================================== *)
(** ** Text: lines and occurrences *)

Section Text.

(** A text without a line feed, followed by a line feed, is a line. *)
Lemma lines_app_LF (a rest : string) :
  no_LF a = true -> lines (a ++ LF ++ rest) = a :: lines rest.
Proof.
  induction a as [|c a IH]; intros H.
  - reflexivity.
  - simpl in H. apply andb_true_iff in H as [Hc Ha].
    apply negb_true_iff in Hc.
    change (lines (String c (a ++ LF ++ rest)) = String c a :: lines rest).
    cbn [lines]. rewrite Hc, (IH Ha). reflexivity.
Qed.

Lemma no_LF_app (a b : string) :
  no_LF (a ++ b) = no_LF a && no_LF b.
Proof.
  induction a as [|c a IH]; simpl; [reflexivity|].
  rewrite IH, andb_assoc. reflexivity.
Qed.

Lemma app_assoc_string (a b c : string) : (a ++ b) ++ c = a ++ b ++ c.
Proof.
  induction a as [|x a IH]; simpl; [reflexivity | now rewrite IH].
Qed.

(** The entries joined by line feeds and closed by one are as many
    lines, when none of them holds a line feed. *)
Lemma lines_join (entries : list string) (rest : string) :
  entries <> [] ->
  forallb no_LF entries = true ->
  lines (String.concat LF entries ++ LF ++ rest)
  = (entries ++ lines rest)%list.
Proof.
  induction entries as [|e entries IH]; intros Hne Hall.
  - congruence.
  - simpl in Hall. apply andb_true_iff in Hall as [He Hall].
    destruct entries as [|e' entries].
    + simpl. apply lines_app_LF. exact He.
    + change (String.concat LF (e :: e' :: entries))
        with (e ++ LF ++ String.concat LF (e' :: entries)).
      rewrite !app_assoc_string.
      rewrite (lines_app_LF e _ He).
      rewrite IH; [reflexivity | discriminate | exact Hall].
Qed.

Lemma app_empty_r (s : string) : s ++ "" = s.
Proof.
  induction s as [|c s IH]; simpl; [reflexivity | now rewrite IH].
Qed.

Lemma prefix_app (s rest : string) : String.prefix s (s ++ rest) = true.
Proof.
  induction s as [|c s IH]; simpl.
  - destruct rest; reflexivity.
  - destruct (ascii_dec c c); [exact IH | congruence].
Qed.

Lemma includes_app (pre s post : string) :
  includes (pre ++ s ++ post) s = true.
Proof.
  induction pre as [|c pre IH].
  - simpl. destruct (s ++ post) eqn:E.
    + destruct s; [reflexivity | discriminate].
    + cbn [includes]. rewrite <- E, prefix_app. reflexivity.
  - change (includes (String c (pre ++ s ++ post)) s = true).
    cbn [includes]. rewrite IH. apply orb_true_r.
Qed.

(** An element of a joined list stands in the join. *)
Lemma join_In (sep : string) (entries : list string) (e : string) :
  In e entries ->
  exists pre post, String.concat sep entries = pre ++ e ++ post.
Proof.
  induction entries as [|x entries IH]; simpl; [contradiction|].
  intros [->|H].
  - destruct entries as [|y entries].
    + exists "", "". simpl. symmetry. apply app_empty_r.
    + exists "", (sep ++ String.concat sep (y :: entries)). reflexivity.
  - destruct (IH H) as (pre & post & E).
    destruct entries as [|y entries]; [contradiction|].
    exists (x ++ sep ++ pre), post. rewrite E.
    rewrite !app_assoc_string. reflexivity.
Qed.

End Text.

(* ================================================================== *)
(** ** Keys of the filtered source *)

Section FilteredKeys.

Lemma keys_put (entries : list (string * option string)) (k k' : string)
  (v : option string) :
  In k' (map fst (put entries k v)) <-> In k' (map fst entries) \/ k' = k.
Proof.
  induction entries as [|[k0 v0] l IH]; simpl.
  - intuition congruence.
  - destruct (String.eqb k0 k) eqn:E; simpl.
    + apply String.eqb_eq in E; subst k0. intuition congruence.
    + rewrite IH. tauto.
Qed.



End FilteredKeys.

(* ================================================================== *)
(** ** The properties of the specification *)

Create Rewrite HintDb ends.
#[global] Hint Rewrite checkEnv_conclude checkEnvSafe_conclude
  checkEnvSource_conclude : ends.

(** Replaces the calls of the entry points, in the goal and in [H], by what
    they end as. *)
Ltac ends_in H := autorewrite with ends in H.
Ltac ends := autorewrite with ends.

Lemma conclude_warns (m : list string) :
  outcome (conclude m false)
  = Returned {| missing := m; success := Nat.eqb (List.length m) 0 |}.
Proof.
  destruct m; reflexivity.
Qed.

Lemma varsToCheck_no_prefix (prefix : option string) (l : list string) :
  truthy prefix = false -> varsToCheck prefix l = l.
Proof.
  unfold varsToCheck. intros ->. reflexivity.
Qed.

Lemma truthy_of_own (v : option string) : truthy_value (of_own v) = truthy v.
Proof.
  destruct v as [[|c s]|]; reflexivity.
Qed.


(** C2. Whatever the required names and the options, a result returned by
    [checkEnv], [checkEnvSafe] or [checkEnvSource] has [success] equal to
    "[missing] is empty".  (A result is returned unless names are missing
    and the call is one that exits.) *)
Theorem result_fields_agree (process_env : Env) (requiredVars : list string)
  (o : Env) (options : CheckEnvOptions) :
  (forall r,
     outcome (checkEnv process_env requiredVars options) = Returned r
     \/ outcome (checkEnvSafe process_env requiredVars options) = Returned r
     \/ outcome (checkEnvSource process_env o options) = Returned r ->
     success r = Nat.eqb (List.length (missing r)) 0
     /\ (success r = true <-> missing r = []))
  /\ (exists r,
        outcome (checkEnvSafe process_env requiredVars options) = Returned r)
  /\ (exits options = false
      \/ missingVars process_env requiredVars options = [] ->
      exists r,
        outcome (checkEnv process_env requiredVars options) = Returned r).
Proof.
  split; [|split].
  - intros r H.
    assert (E : success r = Nat.eqb (List.length (missing r)) 0).
    { destruct H as [H|[H|H]]; ends_in H;
        apply conclude_success in H as [-> ->]; reflexivity. }
    split; [exact E|]. rewrite E.
    destruct (missing r); simpl; split; intros; congruence.
  - rewrite checkEnvSafe_conclude, conclude_warns. eauto.
  - rewrite checkEnv_conclude. intros [->| ->].
    + rewrite conclude_warns. eauto.
    + simpl. eauto.
Qed.

Lemma result_fields_agree_witness :
  let r := {| missing := ["DATABASE_URL"]; success := false |} in
  success r = Nat.eqb (List.length (missing r)) 0
  /\ (success r = true <-> missing r = []).
Proof.
  destruct (@result_fields_agree
              (literal [("API_KEY", Some "test-key")])
              ["API_KEY"; "DATABASE_URL"] (literal [])
              {| prefix := None; source := None; exitOnError := Some false |})
    as (Hagree & _).
  apply Hagree. left. reflexivity.
Defined.

(** C4. [checkEnvSafe] is [checkEnv] with [exitOnError] forced to [false],
    whatever the options say: it emits no [process.exit] and it returns a
    result. *)
Theorem checkEnvSafe_never_exits (process_env : Env)
  (requiredVars : list string) (options : CheckEnvOptions) :
  checkEnvSafe process_env requiredVars options
  = checkEnv process_env requiredVars (with_exitOnError options false)
  /\ (forall c,
        ~ In (ProcessExit c)
             (events (checkEnvSafe process_env requiredVars options)))
  /\ (exists r,
        outcome (checkEnvSafe process_env requiredVars options) = Returned r).
Proof.
  split; [reflexivity|].
  rewrite checkEnvSafe_conclude.
  destruct (missingVars process_env requiredVars options) as [|v m]; simpl.
  - split; [tauto | eauto].
  - split; [|eauto]. intros c [H|[]]. discriminate.
Qed.

(** C5. When names are missing and [exitOnError] is [true] or left out,
    [checkEnv] writes the formatted block with [console.error], then calls
    [process.exit(1)], and does not return.  No entry point calls
    [process.exit] with another code. *)
Theorem checkEnv_exits_with_1 (process_env : Env)
  (requiredVars : list string) (o : Env) (options : CheckEnvOptions) :
  (exits options = true ->
   missingVars process_env requiredVars options <> [] ->
   checkEnv process_env requiredVars options
   = ([ConsoleError
         (formatErrorMessage (missingVars process_env requiredVars options));
       ProcessExit 1],
      Terminated))
  /\ (forall c,
        In (ProcessExit c) (events (checkEnv process_env requiredVars options))
        \/ In (ProcessExit c)
              (events (checkEnvSafe process_env requiredVars options))
        \/ In (ProcessExit c)
              (events (checkEnvSource process_env o options)) ->
        c = 1%Z).
Proof.
  split.
  - intros He Hm. rewrite checkEnv_conclude, He.
    destruct (missingVars process_env requiredVars options); [congruence|].
    reflexivity.
  - intros c [H|[H|H]]; ends_in H; eapply conclude_exit_code; eauto.
Qed.

Lemma checkEnv_exits_with_1_witness :
  checkEnv (literal [("API_KEY", Some "test-key")])
    ["API_KEY"; "DATABASE_URL"] no_options
  = ([ConsoleError (formatErrorMessage ["DATABASE_URL"]); ProcessExit 1],
     Terminated).
Proof.
  destruct (@checkEnv_exits_with_1
              (literal [("API_KEY", Some "test-key")])
              ["API_KEY"; "DATABASE_URL"] (literal [])
              no_options) as [Hexit _].
  apply Hexit; [reflexivity | discriminate].
Defined.

(** C7. When no name is missing, and so for an empty list of required
    names, nothing is written on either channel, the process is not
    terminated, and the call returns [{missing: [], success: true}],
    whatever [exitOnError] is: the call is [silent]. *)
Theorem nothing_missing_is_silent (process_env : Env)
  (requiredVars : list string) (o : Env) (options : CheckEnvOptions) :
  (missingVars process_env requiredVars options = [] ->
   checkEnv process_env requiredVars options = silent
   /\ checkEnvSafe process_env requiredVars options = silent)
  /\ (missingVars process_env (Object_keys o) (with_source options o) = [] ->
      checkEnvSource process_env o options = silent)
  /\ checkEnv process_env [] options = silent
  /\ checkEnvSafe process_env [] options = silent
  /\ (forall chain,
        checkEnvSource process_env {| proto := chain; own := [] |} options
        = silent).
Proof.
  split; [|split; [|split; [|split]]].
  - intros Hm. ends. rewrite Hm. split; reflexivity.
  - intros Hm. ends. rewrite Hm. reflexivity.
  - ends. rewrite missingVars_nil. reflexivity.
  - ends. rewrite missingVars_nil. reflexivity.
  - intros chain. ends.
    change (Object_keys {| proto := chain; own := [] |}) with (@nil string).
    rewrite missingVars_nil. reflexivity.
Qed.

Lemma nothing_missing_is_silent_witness :
  checkEnv (literal []) ["API_KEY"; "DATABASE_URL"]
    {| prefix := None;
       source :=
         Some (literal [("API_KEY", Some "k"); ("DATABASE_URL", Some "u")]);
       exitOnError := None |}
  = silent
  /\ checkEnvSource (literal [])
       (literal [("API_KEY", Some "k"); ("DATABASE_URL", Some "u")])
       no_options
     = silent.
Proof.
  destruct (@nothing_missing_is_silent (literal [])
              ["API_KEY"; "DATABASE_URL"]
              (literal [("API_KEY", Some "k"); ("DATABASE_URL", Some "u")])
              {| prefix := None;
                 source :=
                   Some (literal
                           [("API_KEY", Some "k"); ("DATABASE_URL", Some "u")]);
                 exitOnError := None |}) as (Hsilent & Hsource & _).
  split.
  - apply Hsilent. reflexivity.
  - apply Hsource. reflexivity.
Defined.

(** C10. On an explicit source, the prefix [""] does what no prefix does:
    [getEnvSource] hands the source back as it is, every required name is
    checked, and [checkEnv] ends the same way. *)
Theorem empty_prefix_is_no_prefix (process_env : Env)
  (requiredVars : list string) (o : Env) (eo : option bool) :
  checkEnv process_env requiredVars
    {| prefix := Some ""; source := Some o; exitOnError := eo |}
  = checkEnv process_env requiredVars
      {| prefix := None; source := Some o; exitOnError := eo |}
  /\ getEnvSource process_env (Some o) (Some "") = o
  /\ getEnvSource process_env (Some o) None = o
  /\ varsToCheck (Some "") requiredVars = requiredVars
  /\ varsToCheck None requiredVars = requiredVars.
Proof.
  split; [reflexivity|].
  split; [reflexivity|].
  split; [reflexivity|].
  split; apply varsToCheck_no_prefix; reflexivity.
Qed.

Lemma kept_prefix (p : string) (v : string) :
  p <> "" -> kept (Some p) v = startsWith v p.
Proof.
  destruct p; [congruence | reflexivity].
Qed.

Lemma varsToCheck_prefix (p : string) (l : list string) :
  p <> "" -> varsToCheck (Some p) l = filter (fun v => startsWith v p) l.
Proof.
  destruct p; [congruence | reflexivity].
Qed.

Lemma filter_idem (A : Type) (f : A -> bool) (l : list A) :
  filter f (filter f l) = filter f l.
Proof.
  induction l as [|x l IH]; simpl; [reflexivity|].
  destruct (f x) eqn:E; simpl; [rewrite E, IH; reflexivity | exact IH].
Qed.



(** C9, as it is worded, fails on a source without prototype and on a
    source whose own key [__proto__] is empty.  The filtered copy is a
    fresh [{}]: it inherits [constructor], which the source made with
    [Object.create(null)] does not have, and it is not given the key
    [__proto__], which the second source binds to [""]. *)
Lemma source_filter_counterexample :
  checkEnv (literal []) ["constructor"]
    {| prefix := Some "con"; source := Some (bare []);
       exitOnError := Some false |}
  = silent
  /\ checkEnv (literal [])
       (filter (fun v => startsWith v "con") ["constructor"])
       {| prefix := None; source := Some (bare []);
          exitOnError := Some false |}
     = ([ConsoleWarn (formatErrorMessage ["constructor"])],
        Returned {| missing := ["constructor"]; success := false |})
  /\ checkEnv (literal []) ["__proto__"]
       {| prefix := Some "__";
          source := Some (literal [("__proto__", Some ""); ("__x", Some "1")]);
          exitOnError := Some false |}
     = silent
  /\ checkEnv (literal [])
       (filter (fun v => startsWith v "__") ["__proto__"])
       {| prefix := None;
          source := Some (literal [("__proto__", Some ""); ("__x", Some "1")]);
          exitOnError := Some false |}
     = ([ConsoleWarn (formatErrorMessage ["__proto__"])],
        Returned {| missing := ["__proto__"]; success := false |})
  /\ ~ (forall (requiredVars : list string) (o : Env) (p : string),
          p <> "" ->
          checkEnv (literal []) requiredVars
            {| prefix := Some p; source := Some o;
               exitOnError := Some false |}
          = checkEnv (literal [])
              (filter (fun v => startsWith v p) requiredVars)
              {| prefix := None; source := Some o;
                 exitOnError := Some false |}).
Proof.
  split; [reflexivity|]. split; [reflexivity|].
  split; [reflexivity|]. split; [reflexivity|].
  intros H. specialize (H ["constructor"] (bare []) "con").
  assert (Hne : "con" <> "") by discriminate.
  specialize (H Hne). apply (f_equal (@events CheckEnvResult)) in H.
  vm_compute in H. discriminate H.
Qed.

(** C9, amended. With a non-empty prefix and an explicit source whose
    prototype is [Object.prototype], as that of an object literal, and
    which has no own key [__proto__], filtering the source changes
    nothing: [checkEnv] ends as it would when the required names that
    start with the prefix are looked up in the source as given, because
    such a name reads the same in the filtered source. *)
Theorem source_filter_redundant (process_env : Env)
  (requiredVars : list string) (o : Env) (p : string) (eo : option bool) :
  proto o = ObjectPrototype ->
  is_own_key o "__proto__" = false ->
  p <> "" ->
  checkEnv process_env requiredVars
    {| prefix := Some p; source := Some o; exitOnError := eo |}
  = checkEnvUnfiltered process_env requiredVars
      {| prefix := Some p; source := Some o; exitOnError := eo |}
  /\ checkEnv process_env requiredVars
       {| prefix := Some p; source := Some o; exitOnError := eo |}
     = checkEnv process_env
         (filter (fun v => startsWith v p) requiredVars)
         {| prefix := None; source := Some o; exitOnError := eo |}
  /\ (forall v,
        startsWith v p = true ->
        get (getEnvSource process_env (Some o) (Some p)) v = get o v).
Proof.
  intros Hproto Hnokey Hne.
  assert (Ht : truthy (Some p) = true)
    by (destruct p; [congruence | reflexivity]).
  assert (Hsame : forall v, checked_value o (Some p) v = get o v).
  { intros v. unfold checked_value. rewrite Ht.
    destruct (is_own_key o v) eqn:Eown.
    - destruct (String.eqb v "__proto__") eqn:E; [|reflexivity].
      apply String.eqb_eq in E. subst v. congruence.
    - simpl. unfold get at 2.
      rewrite (own_get_not_key _ _ Eown), Hproto. reflexivity. }
  split; [|split].
  - rewrite checkEnv_conclude, missingVars_eq. unfold checkEnvUnfiltered.
    cbn [source prefix base]. f_equal. apply filter_ext.
    intros v. rewrite Hsame. reflexivity.
  - rewrite !checkEnv_conclude, !missingVars_eq.
    cbn [source prefix base exits].
    rewrite varsToCheck_prefix by exact Hne.
    rewrite (@varsToCheck_no_prefix None) by reflexivity.
    f_equal. apply filter_ext. intros v. rewrite Hsame. reflexivity.
  - intros v Hv.
    rewrite get_getEnvSource_kept by (rewrite kept_prefix; assumption).
    apply Hsame.
Qed.

Lemma source_filter_redundant_witness :
  checkEnv (literal []) ["NEXT_API_URL"; "NEXT_SECRET"; "OTHER_VAR"]
    {| prefix := Some "NEXT_";
       source :=
         Some (literal [("NEXT_API_URL", Some "u"); ("OTHER_VAR", Some "o")]);
       exitOnError := Some false |}
  = checkEnv (literal [])
      (filter (fun v => startsWith v "NEXT_")
              ["NEXT_API_URL"; "NEXT_SECRET"; "OTHER_VAR"])
      {| prefix := None;
         source :=
           Some (literal
                   [("NEXT_API_URL", Some "u"); ("OTHER_VAR", Some "o")]);
         exitOnError := Some false |}.
Proof.
  destruct (@source_filter_redundant
              (literal []) ["NEXT_API_URL"; "NEXT_SECRET"; "OTHER_VAR"]
              (literal [("NEXT_API_URL", Some "u"); ("OTHER_VAR", Some "o")])
              "NEXT_" (Some false)) as (_ & Hsame & _).
  - reflexivity.
  - reflexivity.
  - discriminate.
  - exact Hsame.
Defined.

(* ================================================================== *)
(** ** checkEnvSource *)

Section SourceKeys.

Variable o : Env.
Hypothesis keys_distinct : NoDup (Object_keys o).

(** Looking the keys of an object up, one by one, as [checkEnv] does,
    reads the object entry by entry. *)
Lemma filter_keys_entries (prefix : option string)
  (l : list (string * option string)) :
  incl l (own o) ->
  filter (fun v => negb (truthy_value (checked_value o prefix v)))
    (filter (kept prefix) (map fst l))
  = map fst
      (filter (fun kv => reported prefix (fst kv) && negb (truthy (snd kv)))
         l).
Proof.
  induction l as [|[k v] l IH]; intros Hl; [reflexivity|].
  assert (HIn : In (k, v) (own o)) by (apply Hl; left; reflexivity).
  assert (Hk : get o k = of_own v) by (apply get_In; assumption).
  assert (Hown : is_own_key o k = true).
  { apply existsb_exists. exists k. split; [|apply String.eqb_refl].
    apply (in_map fst) in HIn. exact HIn. }
  assert (Hl' : incl l (own o)) by (intros x Hx; apply Hl; right; exact Hx).
  assert (Hhead : negb (truthy_value (checked_value o prefix k))
                  = negb (truthy prefix && String.eqb k "__proto__")
                    && negb (truthy v)).
  { unfold checked_value. rewrite Hown, Hk.
    destruct (truthy prefix); simpl; [|apply f_equal, truthy_of_own].
    destruct (String.eqb k "__proto__") eqn:E; simpl.
    - apply String.eqb_eq in E. subst k. reflexivity.
    - apply f_equal, truthy_of_own. }
  specialize (IH Hl').
  cbn [map fst filter snd]. unfold reported at 1.
  destruct (kept prefix k); cbn [filter andb]; [|exact IH].
  rewrite Hhead.
  destruct (negb (truthy prefix && String.eqb k "__proto__")
            && negb (truthy v));
    cbn [map fst]; rewrite IH; reflexivity.
Qed.

Lemma missingVars_own_keys (process_env : Env) (options : CheckEnvOptions) :
  missingVars process_env (Object_keys o) (with_source options o)
  = map fst
      (filter
         (fun kv =>
            reported (prefix options) (fst kv) && negb (truthy (snd kv)))
         (own o)).
Proof.
  rewrite missingVars_eq. cbn [with_source source prefix base].
  rewrite varsToCheck_kept. apply filter_keys_entries. apply incl_refl.
Qed.

End SourceKeys.

(** C6, as the specification words it, fails when the options carry a
    prefix: the key [OTHER_VAR] is bound to [undefined] and is not
    reported. *)
Lemma checkEnvSource_prefix_counterexample :
  let o := literal [("NEXT_API_URL", Some "u"); ("OTHER_VAR", None)] in
  let options :=
    {| prefix := Some "NEXT_"; source := None; exitOnError := Some false |} in
  checkEnvSource (literal []) o options
  = ([], Returned {| missing := []; success := true |})
  /\ falsy_keys o = ["OTHER_VAR"]
  /\ ~ (exists r,
          outcome (checkEnvSource (literal []) o options) = Returned r
          /\ missing r = falsy_keys o).
Proof.
  split; [reflexivity|]. split; [reflexivity|].
  intros (r & Hr & Hm). vm_compute in Hr. inversion Hr; subst r.
  vm_compute in Hm. discriminate.
Qed.

(** C6, amended. [checkEnvSource] takes the keys of the map, in the order
    of [Object.keys], as the required names, and puts the map in the place
    of any [source] of the options.  A key other than [__proto__] is
    reported missing exactly when it passes the prefix filter, as every
    key does when the options have no prefix or an empty one, and is bound
    to [undefined] or to the empty string; the names found missing are
    these keys, in the order of the map, and without a truthy prefix they
    are all the keys so bound.  A key bound to a non-empty string is not
    among them.  (The keys of an object are distinct.) *)
Theorem checkEnvSource_missing_exact (process_env : Env) (o : Env)
  (options : CheckEnvOptions) :
  NoDup (Object_keys o) ->
  checkEnvSource process_env o options
  = checkEnv process_env (Object_keys o) (with_source options o)
  /\ (forall o',
        checkEnvSource process_env o (with_source options o')
        = checkEnvSource process_env o options)
  /\ (forall k x,
        In (k, x) (own o) ->
        k <> "__proto__" ->
        (In k (missingVars process_env (Object_keys o)
                 (with_source options o))
         <-> kept (prefix options) k = true /\ (x = None \/ x = Some "")))
  /\ checkEnvSource process_env o options
     = conclude
         (map fst
            (filter
               (fun kv =>
                  reported (prefix options) (fst kv)
                  && negb (truthy (snd kv)))
               (own o)))
         (exits options)
  /\ (truthy (prefix options) = false ->
      missingVars process_env (Object_keys o) (with_source options o)
      = falsy_keys o)
  /\ (forall k s,
        In (k, Some s) (own o) ->
        s <> "" ->
        ~ In k (missingVars process_env (Object_keys o)
                  (with_source options o))).
Proof.
  intros ND.
  assert (Hrep : forall k x,
             In (k, x) (own o) ->
             (In k (missingVars process_env (Object_keys o)
                      (with_source options o))
              <-> reported (prefix options) k = true /\ truthy x = false)).
  { intros k x HIn. rewrite missingVars_own_keys by exact ND.
    rewrite in_map_iff. split.
    - intros ([k' x'] & Hk & Hf). simpl in Hk. subst k'.
      apply filter_In in Hf as [HIn' Hf]. simpl in Hf.
      apply andb_true_iff in Hf as [Hr Ht]. apply negb_true_iff in Ht.
      assert (Some x' = Some x).
      { rewrite <- (own_get_In (own o) k x' ND HIn').
        apply own_get_In; assumption. }
      split; congruence.
    - intros [Hr Ht]. exists (k, x). split; [reflexivity|].
      apply filter_In. split; [exact HIn|]. simpl. rewrite Hr, Ht.
      reflexivity. }
  split; [reflexivity|]. split; [reflexivity|].
  split; [|split; [|split]].
  - intros k x HIn Hk. rewrite (Hrep k x HIn). unfold reported.
    apply String.eqb_neq in Hk. rewrite Hk, andb_false_r, andb_true_r.
    destruct x as [[|c s]|]; simpl; split; intros [H1 H2]; split; auto;
      try discriminate; destruct H2; discriminate.
  - rewrite checkEnvSource_conclude, missingVars_own_keys by exact ND.
    reflexivity.
  - intros Hp. rewrite missingVars_own_keys by exact ND.
    unfold falsy_keys. f_equal. apply filter_ext. intros [k v].
    unfold reported, kept. rewrite Hp.
    destruct (prefix options) as [[|c p]|]; simpl in *;
      try reflexivity; discriminate.
  - intros k s HIn Hs Hk. apply (Hrep k (Some s) HIn) in Hk as [_ Hk].
    destruct s; [congruence | discriminate].
Qed.

Lemma checkEnvSource_missing_exact_witness :
  checkEnvSource (literal [])
    (literal [("API_KEY", Some "k"); ("SECRET", None); ("TOKEN", Some "")])
    {| prefix := None; source := None; exitOnError := Some false |}
  = conclude ["SECRET"; "TOKEN"] false.
Proof.
  destruct (@checkEnvSource_missing_exact (literal [])
              (literal
                 [("API_KEY", Some "k"); ("SECRET", None); ("TOKEN", Some "")])
              {| prefix := None; source := None; exitOnError := Some false |})
    as (_ & _ & _ & Hends & _).
  - repeat constructor; simpl; intuition discriminate.
  - exact Hends.
Defined.

(* ================================================================== *)
(** ** The diagnostic block *)

Section Block.

Lemma join_app (sep : string) (l1 l2 : list string) :
  l1 <> [] -> l2 <> [] ->
  String.concat sep (l1 ++ l2)
  = String.concat sep l1 ++ sep ++ String.concat sep l2.
Proof.
  intros H1 H2. induction l1 as [|x l1 IH]; [congruence|].
  destruct l1 as [|y l1].
  - destruct l2; [congruence | reflexivity].
  - change (String.concat sep ((x :: y :: l1) ++ l2))
      with (x ++ sep ++ String.concat sep ((y :: l1) ++ l2)).
    rewrite IH by discriminate.
    change (String.concat sep (x :: y :: l1))
      with (x ++ sep ++ String.concat sep (y :: l1)).
    rewrite !app_assoc_string. reflexivity.
Qed.

(** The block is its lines joined by line feeds. *)
Lemma formatErrorMessage_join (missing : list string) :
  missing <> [] ->
  formatErrorMessage missing = String.concat LF (block_lines missing).
Proof.
  intros Hne. unfold formatErrorMessage, block_lines.
  rewrite (@join_app LF [""; banner; separator]) by
    (first [discriminate | destruct missing; [congruence | discriminate]]).
  rewrite join_app by
    (first [discriminate | destruct missing; [congruence | discriminate]]).
  change (String.concat LF [""; banner; separator])
    with ("" ++ LF ++ banner ++ LF ++ separator).
  change (String.concat LF [separator; ""]) with (separator ++ LF ++ "").
  change (LF ++ "") with LF.
  rewrite !app_assoc_string. reflexivity.
Qed.

Lemma formatErrorMessage_entry (missing : list string) (v : string) :
  In v missing ->
  exists pre post, formatErrorMessage missing = pre ++ marker ++ v ++ post.
Proof.
  intros H.
  assert (He : In (marker ++ v) (map (fun v => marker ++ v) missing))
    by (apply in_map with (f := fun v => marker ++ v); exact H).
  destruct (join_In LF _ _ He) as (pre & post & E).
  exists (LF ++ banner ++ LF ++ separator ++ LF ++ pre),
         (post ++ LF ++ separator ++ LF).
  unfold formatErrorMessage. rewrite E.
  rewrite !app_assoc_string. reflexivity.
Qed.

Lemma no_LF_entries (missing : list string) :
  forallb no_LF missing = true ->
  forallb no_LF (map (fun v => marker ++ v) missing) = true.
Proof.
  induction missing as [|v l IH]; intros H; [reflexivity|].
  cbn [forallb map] in *. apply andb_true_iff in H as [Hv Hl].
  rewrite no_LF_app, Hv, (IH Hl). reflexivity.
Qed.

(** Split at the line feeds, the block of names that hold none is the
    lines of [block_lines]. *)
Lemma lines_formatErrorMessage (missing : list string) :
  missing <> [] ->
  forallb no_LF missing = true ->
  lines (formatErrorMessage missing) = block_lines missing.
Proof.
  intros Hne Hall. unfold formatErrorMessage, block_lines.
  change (LF ++ banner ++ LF ++ separator ++ LF
            ++ String.concat LF (map (fun v => marker ++ v) missing)
            ++ LF ++ separator ++ LF)
    with ("" ++ LF ++ banner ++ LF ++ separator ++ LF
            ++ String.concat LF (map (fun v => marker ++ v) missing)
            ++ LF ++ separator ++ LF ++ "").
  rewrite (lines_app_LF "") by reflexivity.
  rewrite (lines_app_LF banner) by reflexivity.
  rewrite (lines_app_LF separator) by reflexivity.
  rewrite lines_join.
  - rewrite (lines_app_LF separator) by reflexivity. reflexivity.
  - destruct missing; [congruence | discriminate].
  - apply no_LF_entries. exact Hall.
Qed.

End Block.

(** C8, as the specification words it, fails for a name that holds a line
    feed: the name takes two lines of the block, and the second one has no
    marker. *)
Lemma diagnostic_lines_counterexample :
  let name := "A" ++ LF ++ "B" in
  checkEnv (literal []) [name]
    {| prefix := None; source := Some (literal []);
       exitOnError := Some false |}
  = ([ConsoleWarn (formatErrorMessage [name])],
     Returned {| missing := [name]; success := false |})
  /\ lines (formatErrorMessage [name])
     = [""; banner; separator; marker ++ "A"; "B"; separator; ""]
  /\ lines (formatErrorMessage [name]) <> block_lines [name].
Proof.
  split; [reflexivity|]. split; [vm_compute; reflexivity|].
  intros H. apply (f_equal (@List.length string)) in H.
  vm_compute in H. discriminate.
Qed.

(** C8, amended. When names are missing, the diagnostic is written once,
    as one text: the banner, the separator, one entry per missing name made
    of the marker and the name, in the order of [missing], and the
    separator again, joined by line feeds between an opening and a closing
    line feed.  Every missing name stands in it after a marker.  When no
    missing name holds a line feed, the lines of the text are exactly an
    empty line, the banner line, the separator line, one line per missing
    name, the separator line and an empty line. *)
Theorem diagnostic_block (process_env : Env) (requiredVars : list string)
  (options : CheckEnvOptions) :
  missingVars process_env requiredVars options <> [] ->
  console_writes (events (checkEnv process_env requiredVars options))
  = [formatErrorMessage (missingVars process_env requiredVars options)]
  /\ formatErrorMessage (missingVars process_env requiredVars options)
     = String.concat LF
         (block_lines (missingVars process_env requiredVars options))
  /\ (forall v,
        In v (missingVars process_env requiredVars options) ->
        includes
          (formatErrorMessage (missingVars process_env requiredVars options))
          (marker ++ v) = true
        /\ includes
             (formatErrorMessage (missingVars process_env requiredVars options))
             v = true)
  /\ (forallb no_LF (missingVars process_env requiredVars options) = true ->
      lines (formatErrorMessage (missingVars process_env requiredVars options))
      = block_lines (missingVars process_env requiredVars options)).
Proof.
  intros Hne. rewrite checkEnv_conclude.
  set (m := missingVars process_env requiredVars options) in *.
  split; [|split; [|split]].
  - destruct m as [|v m]; [congruence|].
    unfold conclude. destruct (exits options); reflexivity.
  - apply formatErrorMessage_join. exact Hne.
  - intros v Hv. destruct (formatErrorMessage_entry m v Hv) as (pre & post & E).
    rewrite E. split.
    + rewrite <- (app_assoc_string marker v post). apply includes_app.
    + rewrite <- (app_assoc_string pre marker (v ++ post)).
      apply includes_app.
  - intros Hall. apply lines_formatErrorMessage; assumption.
Qed.

Lemma diagnostic_block_witness :
  lines (formatErrorMessage ["DATABASE_URL"; "API_KEY"])
  = [""; banner; separator;
     marker ++ "DATABASE_URL"; marker ++ "API_KEY"; separator; ""].
Proof.
  destruct (@diagnostic_block (literal [("HOME", Some "/root")])
              ["DATABASE_URL"; "HOME"; "API_KEY"] no_options)
    as (_ & _ & _ & Hlines).
  - discriminate.
  - apply Hlines. reflexivity.
Defined.

(* ================================================================== *)
(** ** The scenarios of the specification and of the test suite *)

Section Scenarios.

Example scenario_A :
  checkEnv (literal []) ["API_KEY"; "DATABASE_URL"]
    {| prefix := None;
       source := Some (literal [("API_KEY", Some "k"); ("DATABASE_URL", Some "u")]);
       exitOnError := Some false |}
  = silent.
Proof. reflexivity. Qed.

Example scenario_B :
  checkEnv (literal []) ["API_KEY"; "DATABASE_URL"]
    {| prefix := None;
       source := Some (literal [("API_KEY", Some "k")]);
       exitOnError := Some false |}
  = ([ConsoleWarn (formatErrorMessage ["DATABASE_URL"])],
     Returned {| missing := ["DATABASE_URL"]; success := false |}).
Proof. reflexivity. Qed.

Example scenario_C :
  checkEnv (literal []) ["NEXT_API_URL"; "OTHER_VAR"]
    {| prefix := Some "NEXT_";
       source := Some (literal [("NEXT_API_URL", Some "u"); ("OTHER_VAR", Some "o")]);
       exitOnError := Some false |}
  = silent.
Proof. reflexivity. Qed.

Example scenario_D :
  checkEnvSource (literal []) (literal [("API_KEY", Some "k"); ("SECRET", None)])
    {| prefix := None; source := None; exitOnError := Some false |}
  = ([ConsoleWarn (formatErrorMessage ["SECRET"])],
     Returned {| missing := ["SECRET"]; success := false |}).
Proof. reflexivity. Qed.

Example scenario_F :
  checkEnv (literal []) ["MISSING"] no_options
  = ([ConsoleError (formatErrorMessage ["MISSING"]); ProcessExit 1],
     Terminated).
Proof. reflexivity. Qed.

(** "should never exit the process" *)
Example test_checkEnvSafe_default :
  checkEnvSafe (literal []) ["API_KEY"; "DATABASE_URL"] no_options
  = ([ConsoleWarn (formatErrorMessage ["API_KEY"; "DATABASE_URL"])],
     Returned {| missing := ["API_KEY"; "DATABASE_URL"];
                 success := false |}).
Proof. reflexivity. Qed.

(** "should work with prefix filtering", on [checkEnvSource] *)
Example test_checkEnvSource_prefix :
  checkEnvSource (literal [])
    (literal [("NEXT_API_URL", Some "test-url"); ("NEXT_SECRET", None);
              ("OTHER_VAR", Some "other")])
    {| prefix := Some "NEXT_"; source := None; exitOnError := Some false |}
  = ([ConsoleWarn (formatErrorMessage ["NEXT_SECRET"])],
     Returned {| missing := ["NEXT_SECRET"]; success := false |}).
Proof. reflexivity. Qed.

(** The filtered source of that test, key by key. *)
Example test_getEnvSource_prefix :
  getEnvSource (literal [])
    (Some (literal [("NEXT_API_URL", Some "test-url"); ("NEXT_SECRET", None);
                    ("OTHER_VAR", Some "other")]))
    (Some "NEXT_")
  = literal [("NEXT_API_URL", Some "test-url"); ("NEXT_SECRET", None)].
Proof. reflexivity. Qed.

(** "should format error message correctly" *)
Example test_format :
  includes (formatErrorMessage ["MISSING_VAR"]) banner = true
  /\ includes (formatErrorMessage ["MISSING_VAR"]) (marker ++ "MISSING_VAR")
     = true
  /\ includes (formatErrorMessage ["MISSING_VAR"]) separator = true.
Proof. repeat split; vm_compute; reflexivity. Qed.

(** Names that every object literal inherits are not missing. *)
Example inherited_name_on_literal :
  checkEnv (literal []) ["toString"; "API_KEY"]
    {| prefix := None; source := Some (literal []);
       exitOnError := Some false |}
  = ([ConsoleWarn (formatErrorMessage ["API_KEY"])],
     Returned {| missing := ["API_KEY"]; success := false |}).
Proof. reflexivity. Qed.

Example inherited_name_on_process_env :
  checkEnv (literal []) ["toString"] no_options = silent.
Proof. reflexivity. Qed.

(** They are on an object made with [Object.create(null)], unless a prefix
    has the names looked up in the filtered copy. *)
Example inherited_name_on_bare :
  checkEnv (literal []) ["constructor"]
    {| prefix := None; source := Some (bare []); exitOnError := Some false |}
  = ([ConsoleWarn (formatErrorMessage ["constructor"])],
     Returned {| missing := ["constructor"]; success := false |})
  /\ checkEnv (literal []) ["constructor"]
       {| prefix := Some "con"; source := Some (bare []);
          exitOnError := Some false |}
     = silent.
Proof. split; reflexivity. Qed.

(** The filtered copy is not given the key [__proto__]. *)
Example proto_key_is_not_copied :
  getEnvSource (literal [])
    (Some (literal [("__proto__", Some ""); ("__x", Some "1")])) (Some "__")
  = literal [("__x", Some "1")]
  /\ checkEnvSource (literal [])
       (literal [("__proto__", Some ""); ("__x", Some "1")])
       {| prefix := Some "__"; source := None; exitOnError := Some false |}
     = silent
  /\ checkEnvSource (literal [])
       (literal [("__proto__", Some ""); ("__x", Some "1")])
       {| prefix := None; source := None; exitOnError := Some false |}
     = ([ConsoleWarn (formatErrorMessage ["__proto__"])],
        Returned {| missing := ["__proto__"]; success := false |}).
Proof. repeat split; reflexivity. Qed.

End Scenarios.

(* ================================================================== *)
(** ** Further properties of [checkEnv] *)

Section Missing.

Variable process_env : Env.

Lemma filter_twice (A : Type) (f g : A -> bool) (l : list A) :
  filter f (filter g l) = filter (fun x => g x && f x) l.
Proof.
  induction l as [|x l IH]; simpl; [reflexivity|].
  destruct (g x); simpl; [destruct (f x); rewrite IH; reflexivity | exact IH].
Qed.

(** The missing names in one pass over the required names. *)
Lemma missingVars_filter (requiredVars : list string)
  (options : CheckEnvOptions) :
  missingVars process_env requiredVars options
  = filter
      (fun v =>
         kept (prefix options) v
         && negb (truthy_value
                    (checked_value (base process_env (source options))
                       (prefix options) v)))
      requiredVars.
Proof.
  rewrite missingVars_eq, varsToCheck_kept. apply filter_twice.
Qed.

Lemma missingVars_In (requiredVars : list string) (options : CheckEnvOptions)
  (v : string) :
  In v (missingVars process_env requiredVars options)
  <-> In v requiredVars
      /\ kept (prefix options) v = true
      /\ truthy_value
           (checked_value (base process_env (source options))
              (prefix options) v) = false.
Proof.
  rewrite missingVars_filter, filter_In, andb_true_iff, negb_true_iff.
  tauto.
Qed.

Lemma conclude_silent (m : list string) (b : bool) :
  conclude m b = silent <-> m = [].
Proof.
  split; [|intros ->; reflexivity].
  destruct m as [|v m]; [reflexivity|].
  simpl. destruct b; discriminate.
Qed.

Lemma checked_value_prefix (o : Env) (p q : string) (v : string) :
  p <> "" -> q <> "" ->
  checked_value o (Some p) v = checked_value o (Some q) v.
Proof.
  destruct p, q; try congruence. reflexivity.
Qed.

End Missing.

(** X1. For every options record, [checkEnv] ends by the names of
    [requiredVars], in order, that pass the prefix filter and whose checked
    value is [undefined] or [""]: silently when there is none, with a
    warning and [success: false] when [exitOnError] is [false], with an
    error and [process.exit(1)] otherwise.  The checked value of a name is
    what [source || process.env] reads for it when there is no truthy
    prefix; with one it is the own property of that object, for a key of
    it other than [__proto__], and what [{}] reads for any other name. *)
Theorem checkEnv_characterised (process_env : Env)
  (requiredVars : list string) (options : CheckEnvOptions) :
  let m :=
    filter
      (fun v =>
         kept (prefix options) v
         && negb (truthy_value
                    (checked_value (base process_env (source options))
                       (prefix options) v)))
      requiredVars in
  (m = [] -> checkEnv process_env requiredVars options = silent)
  /\ (m <> [] ->
      exits options = false ->
      checkEnv process_env requiredVars options
      = ([ConsoleWarn (formatErrorMessage m)],
         Returned {| missing := m; success := false |}))
  /\ (m <> [] ->
      exits options = true ->
      checkEnv process_env requiredVars options
      = ([ConsoleError (formatErrorMessage m); ProcessExit 1], Terminated)).
Proof.
  intros m. rewrite checkEnv_conclude, missingVars_filter. fold m.
  repeat split.
  - intros ->. reflexivity.
  - intros Hm ->. destruct m; [congruence | reflexivity].
  - intros Hm ->. destruct m; [congruence | reflexivity].
Qed.

Lemma checkEnv_characterised_witness :
  checkEnv (literal [("NEXT_A", Some "a"); ("NEXT_B", Some "")])
    ["NEXT_B"; "OTHER"; "NEXT_A"; "NEXT_C"]
    {| prefix := Some "NEXT_"; source := None; exitOnError := Some false |}
  = ([ConsoleWarn (formatErrorMessage ["NEXT_B"; "NEXT_C"])],
     Returned {| missing := ["NEXT_B"; "NEXT_C"]; success := false |}).
Proof.
  destruct (@checkEnv_characterised
              (literal [("NEXT_A", Some "a"); ("NEXT_B", Some "")])
              ["NEXT_B"; "OTHER"; "NEXT_A"; "NEXT_C"]
              {| prefix := Some "NEXT_"; source := None;
                 exitOnError := Some false |}) as (_ & Hwarn & _).
  apply Hwarn; [discriminate | reflexivity].
Defined.

(** X2. [checkEnv] writes nothing and returns [success: true] exactly when
    every required name that passes the prefix filter has a truthy checked
    value: a non-empty string, or something inherited from
    [Object.prototype]. *)
Theorem checkEnv_silent_iff (process_env : Env) (requiredVars : list string)
  (options : CheckEnvOptions) :
  checkEnv process_env requiredVars options = silent
  <-> (forall v,
         In v requiredVars ->
         kept (prefix options) v = true ->
         (exists c s,
            checked_value (base process_env (source options))
              (prefix options) v = Str (String c s))
         \/ checked_value (base process_env (source options))
              (prefix options) v = Other).
Proof.
  rewrite checkEnv_conclude, conclude_silent. split.
  - intros Hm v Hv Hk.
    destruct (checked_value (base process_env (source options))
                (prefix options) v) as [|[|c s]|] eqn:E;
      [exfalso | exfalso | eauto | auto];
      (assert (Hin : In v (missingVars process_env requiredVars options))
         by (apply missingVars_In; rewrite E; auto));
      rewrite Hm in Hin; exact Hin.
  - intros Hall.
    destruct (missingVars process_env requiredVars options) as [|v m] eqn:E;
      [reflexivity|].
    assert (Hin : In v (missingVars process_env requiredVars options))
      by (rewrite E; left; reflexivity).
    apply missingVars_In in Hin as (Hv & Hk & Ht).
    destruct (Hall v Hv Hk) as [(c & s & Hget)|Hget];
      rewrite Hget in Ht; discriminate.
Qed.

(** X3. An explicit source stands in for [process.env] altogether, an
    empty object included: with [source: {}] the names that are checked and
    are not names of [Object.prototype] are all missing, whatever the
    environment holds.  Without a source the call is the call on
    [process.env] given as the source. *)
Theorem explicit_source_shadows_env (env1 env2 : Env)
  (requiredVars : list string) (o : Env) (options : CheckEnvOptions) :
  checkEnv env1 requiredVars (with_source options o)
  = checkEnv env2 requiredVars (with_source options o)
  /\ checkEnvSource env1 o options = checkEnvSource env2 o options
  /\ checkEnv env1 requiredVars (with_source options (literal []))
     = conclude
         (filter (fun v => negb (is_builtin v))
            (varsToCheck (prefix options) requiredVars))
         (exits options)
  /\ checkEnv env1 requiredVars
       {| prefix := prefix options; source := None;
          exitOnError := exitOnError options |}
     = checkEnv env2 requiredVars (with_source options env1).
Proof.
  assert (H : forall e1 e2 l s,
             checkEnv e1 l (with_source options s)
             = checkEnv e2 l (with_source options s)).
  { intros e1 e2 l s. rewrite !checkEnv_conclude, !missingVars_eq.
    reflexivity. }
  split; [apply H|]. split; [apply (H env1 env2 (Object_keys o) o)|]. split.
  - rewrite checkEnv_conclude, missingVars_eq.
    cbn [with_source source prefix base]. f_equal. apply filter_ext.
    intros v. unfold checked_value.
    destruct (truthy (prefix options)); simpl; unfold get; simpl;
      destruct (is_builtin v); reflexivity.
  - rewrite !checkEnv_conclude, !missingVars_eq. reflexivity.
Qed.

(* ================================================================== *)
(** ** The filtered source, entry by entry *)

Section FilteredEntries.

Lemma put_new (entries : list (string * option string)) (k : string)
  (v : option string) :
  ~ In k (map fst entries) -> put entries k v = (entries ++ [(k, v)])%list.
Proof.
  induction entries as [|[k0 v0] l IH]; simpl; intros H; [reflexivity|].
  destruct (String.eqb k0 k) eqn:E.
  - apply String.eqb_eq in E. tauto.
  - rewrite IH by tauto. reflexivity.
Qed.

Lemma NoDup_keys_filter (f : string * option string -> bool)
  (entries : list (string * option string)) :
  NoDup (map fst entries) -> NoDup (map fst (filter f entries)).
Proof.
  induction entries as [|[k v] l IH]; simpl; intros ND; [constructor|].
  inversion ND as [|? ? Hk ND']; subst.
  destruct (f (k, v)); simpl; [|auto].
  constructor; [|auto].
  intros HIn. apply Hk. apply in_map_iff in HIn as (kv & <- & Hkv).
  apply filter_In in Hkv as [Hkv _]. apply in_map. exact Hkv.
Qed.

Variable envSource : Env.
Variable p : string.
Hypothesis keys_distinct : NoDup (Object_keys envSource).

(** The loop of [getEnvSource] over entries whose keys are new to
    [filteredEnv] adds, in order, those whose key starts with [p], the key
    [__proto__] apart. *)
Lemma filter_loop_entries (l : list (string * option string)) :
  forall acc : list (string * option string),
    own_get acc "__proto__" = None ->
    incl l (own envSource) ->
    NoDup (map fst l) ->
    (forall k, In k (map fst l) -> ~ In k (map fst acc)) ->
    fold_left
      (fun filteredEnv key =>
         if startsWith key p
         then set filteredEnv key (declared (get envSource key))
         else filteredEnv)
      (map fst l) (literal acc)
    = literal
        (acc ++ filter
                  (fun kv =>
                     startsWith (fst kv) p
                     && negb (String.eqb (fst kv) "__proto__"))
                  l).
Proof.
  induction l as [|[k v] l IH]; intros acc Hacc Hl ND Hnew.
  - simpl. rewrite app_nil_r. reflexivity.
  - assert (Hl' : incl l (own envSource))
      by (intros x Hx; apply Hl; right; exact Hx).
    inversion ND as [|? ? Hk ND']; subst.
    cbn [map fold_left filter fst].
    destruct (startsWith k p); cbn [andb].
    + rewrite (get_In envSource k v keys_distinct)
        by (apply Hl; left; reflexivity).
      rewrite declared_of_own.
      rewrite (@set_fresh (literal acc) k v) by (split; [reflexivity | exact Hacc]).
      destruct (String.eqb k "__proto__") eqn:E; cbn [negb].
      * apply IH; try assumption.
        intros k' Hk'. apply Hnew. right. exact Hk'.
      * cbn [literal own].
        rewrite IH; try assumption.
        -- rewrite put_new by (apply Hnew; left; reflexivity).
           rewrite <- app_assoc. reflexivity.
        -- rewrite own_get_put, E. exact Hacc.
        -- intros k' Hk' HIn. apply keys_put in HIn as [HIn| ->].
           ++ apply (Hnew k'); [right; exact Hk' | exact HIn].
           ++ apply Hk. exact Hk'.
    + apply IH; try assumption.
      intros k' Hk'. apply Hnew. right. exact Hk'.
Qed.

End FilteredEntries.

Lemma getEnvSource_filter (process_env : Env) (source : option Env)
  (p : string) :
  NoDup (Object_keys (base process_env source)) ->
  p <> "" ->
  getEnvSource process_env source (Some p)
  = literal
      (filter
         (fun kv =>
            startsWith (fst kv) p && negb (String.eqb (fst kv) "__proto__"))
         (own (base process_env source))).
Proof.
  intros ND Hp. destruct p as [|c p]; [congruence|].
  unfold getEnvSource. cbn [truthy negb]. fold (base process_env source).
  unfold Object_keys.
  rewrite (@filter_loop_entries (base process_env source) (String c p) ND);
    [reflexivity | reflexivity | apply incl_refl | exact ND | intros k _ []].
Qed.

(** X4. With a non-empty prefix, [getEnvSource] returns a new object
    literal holding the entries of [source || process.env] whose key starts
    with the prefix, in their order and with their values, the keys bound
    to [undefined] included and the key [__proto__] left out; with no
    prefix, or the prefix [""], it returns that object itself.  (The keys
    of an object are distinct.) *)
Theorem getEnvSource_entries (process_env : Env) (source : option Env)
  (prefix : option string) :
  NoDup (Object_keys (base process_env source)) ->
  getEnvSource process_env source prefix
  = if truthy prefix
    then
      literal
        (filter
           (fun kv =>
              kept prefix (fst kv)
              && negb (String.eqb (fst kv) "__proto__"))
           (own (base process_env source)))
    else base process_env source.
Proof.
  intros ND. destruct prefix as [[|c p]|]; try reflexivity.
  rewrite getEnvSource_filter by (exact ND || discriminate). reflexivity.
Qed.

Lemma getEnvSource_entries_witness :
  getEnvSource
    (literal [("NEXT_A", Some "a"); ("OTHER", Some "o"); ("NEXT_B", Some "")])
    (Some (bare [("OTHER", Some "o"); ("NEXT_B", None); ("NEXT_A", Some "a")]))
    (Some "NEXT_")
  = literal [("NEXT_B", None); ("NEXT_A", Some "a")].
Proof.
  apply (@getEnvSource_entries
           (literal
              [("NEXT_A", Some "a"); ("OTHER", Some "o"); ("NEXT_B", Some "")])
           (Some (bare
                    [("OTHER", Some "o"); ("NEXT_B", None);
                     ("NEXT_A", Some "a")]))
           (Some "NEXT_")).
  repeat constructor; simpl; intuition discriminate.
Defined.

(** X5. Filtering a source that is already filtered by the same prefix
    changes nothing, and filtering by two prefixes gives the same object in
    either order. *)
Theorem getEnvSource_twice (process_env : Env) (o : Env) (p q : string) :
  NoDup (Object_keys o) ->
  p <> "" ->
  q <> "" ->
  getEnvSource process_env
    (Some (getEnvSource process_env (Some o) (Some p))) (Some p)
  = getEnvSource process_env (Some o) (Some p)
  /\ getEnvSource process_env
       (Some (getEnvSource process_env (Some o) (Some p))) (Some q)
     = getEnvSource process_env
         (Some (getEnvSource process_env (Some o) (Some q))) (Some p).
Proof.
  intros ND Hp Hq.
  rewrite (@getEnvSource_filter process_env (Some o) p) by assumption.
  rewrite (@getEnvSource_filter process_env (Some o) q) by assumption.
  cbn [base].
  rewrite !getEnvSource_filter
    by (try assumption; cbn [base literal own Object_keys];
        apply NoDup_keys_filter; exact ND).
  cbn [base literal own]. split.
  - rewrite filter_idem. reflexivity.
  - rewrite !filter_twice. f_equal. apply filter_ext. intros kv.
    apply andb_comm.
Qed.

Lemma getEnvSource_twice_witness :
  getEnvSource (literal [])
    (Some (getEnvSource (literal [])
             (Some (literal
                      [("AB_1", Some "x"); ("A_2", None); ("B_3", Some "y")]))
             (Some "A")))
    (Some "AB")
  = getEnvSource (literal [])
      (Some (getEnvSource (literal [])
               (Some (literal
                        [("AB_1", Some "x"); ("A_2", None);
                         ("B_3", Some "y")]))
               (Some "AB")))
      (Some "A").
Proof.
  destruct (@getEnvSource_twice (literal [])
              (literal [("AB_1", Some "x"); ("A_2", None); ("B_3", Some "y")])
              "A" "AB") as [_ Hcomm].
  - repeat constructor; simpl; intuition discriminate.
  - discriminate.
  - discriminate.
  - exact Hcomm.
Defined.

(** X6. Checking a map with a non-empty prefix is checking, without a
    prefix, the object that [getEnvSource] makes of the map and the
    prefix. *)
Theorem checkEnvSource_prefix_is_filtered_map (process_env : Env) (o : Env)
  (p : string) (s : option Env) (eo : option bool) :
  NoDup (Object_keys o) ->
  p <> "" ->
  checkEnvSource process_env o
    {| prefix := Some p; source := s; exitOnError := eo |}
  = checkEnvSource process_env
      (getEnvSource process_env (Some o) (Some p))
      {| prefix := None; source := s; exitOnError := eo |}.
Proof.
  intros ND Hp.
  rewrite (@getEnvSource_filter process_env (Some o) p) by assumption.
  cbn [base]. rewrite !checkEnvSource_conclude.
  rewrite !missingVars_own_keys
    by (try exact ND; cbn [literal own Object_keys];
        apply NoDup_keys_filter; exact ND).
  cbn [prefix exits exitOnError literal own]. rewrite filter_twice.
  f_equal. f_equal. apply filter_ext. intros [k v].
  unfold reported. rewrite kept_prefix by exact Hp.
  destruct p; [congruence|]. cbn [truthy kept fst snd andb negb].
  reflexivity.
Qed.

Lemma checkEnvSource_prefix_is_filtered_map_witness :
  checkEnvSource (literal [])
    (literal [("__proto__", Some ""); ("__a", None); ("b", None)])
    {| prefix := Some "__"; source := None; exitOnError := Some false |}
  = checkEnvSource (literal [])
      (getEnvSource (literal [])
         (Some (literal [("__proto__", Some ""); ("__a", None); ("b", None)]))
         (Some "__"))
      {| prefix := None; source := None; exitOnError := Some false |}.
Proof.
  apply (@checkEnvSource_prefix_is_filtered_map (literal [])
           (literal [("__proto__", Some ""); ("__a", None); ("b", None)])
           "__" None (Some false)).
  - repeat constructor; simpl; intuition discriminate.
  - discriminate.
Defined.

(* ================================================================== *)
(** ** Required names in batches and in another order *)

Lemma filter_Permutation (A : Type) (f : A -> bool) (l l' : list A) :
  Permutation l l' -> Permutation (filter f l) (filter f l').
Proof.
  induction 1 as [|x l l' _ IH|x y l|l l' l'' _ IH1 _ IH2]; simpl.
  - constructor.
  - destruct (f x); [constructor|]; exact IH.
  - destruct (f x), (f y); try apply Permutation_refl. apply perm_swap.
  - eapply Permutation_trans; eauto.
Qed.

(** X7. The names missing from two lists of required names put end to end
    are the names missing from the first followed by those missing from
    the second: [checkEnvSafe] on the whole returns the two [missing]
    lists joined, and succeeds when both parts do. *)
Theorem checkEnvSafe_app (process_env : Env) (l1 l2 : list string)
  (options : CheckEnvOptions) :
  exists r1 r2,
    outcome (checkEnvSafe process_env l1 options) = Returned r1
    /\ outcome (checkEnvSafe process_env l2 options) = Returned r2
    /\ outcome (checkEnvSafe process_env (l1 ++ l2) options)
       = Returned {| missing := missing r1 ++ missing r2;
                     success := success r1 && success r2 |}.
Proof.
  rewrite !checkEnvSafe_conclude, !conclude_warns, !missingVars_filter.
  rewrite filter_app.
  eexists. eexists. split; [reflexivity|]. split; [reflexivity|].
  cbn [missing success]. f_equal. f_equal.
  rewrite length_app.
  destruct (List.length (filter _ l1)), (List.length (filter _ l2));
    reflexivity.
Qed.

(** X8. Reordering the required names reorders the missing names and
    nothing else: the missing names of a permutation are a permutation of
    the missing names, and the call is silent on one order exactly when it
    is on the other. *)
Theorem checkEnv_permutation (process_env : Env) (l l' : list string)
  (options : CheckEnvOptions) :
  Permutation l l' ->
  Permutation (missingVars process_env l options)
              (missingVars process_env l' options)
  /\ (checkEnv process_env l options = silent
      <-> checkEnv process_env l' options = silent)
  /\ (forall r r',
        outcome (checkEnvSafe process_env l options) = Returned r ->
        outcome (checkEnvSafe process_env l' options) = Returned r' ->
        Permutation (missing r) (missing r') /\ success r = success r').
Proof.
  intros HP.
  assert (Hm : Permutation (missingVars process_env l options)
                 (missingVars process_env l' options)).
  { rewrite !missingVars_filter. apply filter_Permutation. exact HP. }
  split; [exact Hm|]. split.
  - rewrite !checkEnv_conclude, !conclude_silent. split; intros E.
    + rewrite E in Hm. apply Permutation_nil. exact Hm.
    + rewrite E in Hm. apply Permutation_nil. apply Permutation_sym. exact Hm.
  - intros r r'. rewrite !checkEnvSafe_conclude, !conclude_warns.
    intros Hr Hr'. inversion Hr; inversion Hr'; subst; cbn [missing success].
    split; [exact Hm|]. rewrite (Permutation_length Hm). reflexivity.
Qed.

Lemma checkEnv_permutation_witness :
  Permutation
    (missingVars (literal [("B", Some "b")]) ["A"; "B"; "C"] no_options)
    (missingVars (literal [("B", Some "b")]) ["C"; "B"; "A"] no_options).
Proof.
  destruct (@checkEnv_permutation (literal [("B", Some "b")])
              ["A"; "B"; "C"] ["C"; "B"; "A"] no_options) as [Hperm _].
  - apply Permutation_trans with (l' := ["B"; "A"; "C"]);
      [apply perm_swap|].
    apply Permutation_trans with (l' := ["B"; "C"; "A"]);
      [apply perm_skip, perm_swap | apply perm_swap].
  - exact Hperm.
Defined.

(* ================================================================== *)
(** ** What [exitOnError] changes, and what it does not *)

(** X11. [exitOnError] decides the channel and whether the process ends,
    and nothing else: [checkEnv] and [checkEnvSafe] write the same text,
    and [checkEnv] either terminates the process or is the call of
    [checkEnvSafe]; leaving [exitOnError] out is passing [true]. *)
Theorem exit_policy_keeps_text (process_env : Env)
  (requiredVars : list string) (options : CheckEnvOptions) :
  console_writes (events (checkEnv process_env requiredVars options))
  = console_writes (events (checkEnvSafe process_env requiredVars options))
  /\ (outcome (checkEnv process_env requiredVars options) = Terminated
      \/ checkEnv process_env requiredVars options
         = checkEnvSafe process_env requiredVars options)
  /\ checkEnv process_env requiredVars
       {| prefix := prefix options; source := source options;
          exitOnError := None |}
     = checkEnv process_env requiredVars (with_exitOnError options true).
Proof.
  rewrite checkEnvSafe_conclude, !checkEnv_conclude.
  change (missingVars process_env requiredVars
            {| prefix := prefix options; source := source options;
               exitOnError := None |})
    with (missingVars process_env requiredVars options).
  change (missingVars process_env requiredVars (with_exitOnError options true))
    with (missingVars process_env requiredVars options).
  destruct (missingVars process_env requiredVars options) as [|v m];
    destruct (exits options); simpl; auto.
Qed.

(** X12. The channels of [checkEnv]: the process is terminated exactly
    when something is written with [console.error], and exactly when
    [process.exit(1)] is called, which is then the last event; a text
    written with [console.warn] comes with a returned result whose
    [success] is [false], and it is the only event. *)
Theorem channel_discipline (process_env : Env) (requiredVars : list string)
  (options : CheckEnvOptions) :
  let call := checkEnv process_env requiredVars options in
  (outcome call = Terminated <-> exists t, In (ConsoleError t) (events call))
  /\ (outcome call = Terminated
      <-> exists pre, events call = (pre ++ [ProcessExit 1])%list)
  /\ (forall t,
        In (ConsoleWarn t) (events call) ->
        events call = [ConsoleWarn t]
        /\ exists r,
             outcome call = Returned r
             /\ success r = false
             /\ t = formatErrorMessage (missing r)).
Proof.
  intros call. unfold call. rewrite checkEnv_conclude.
  destruct (missingVars process_env requiredVars options) as [|v m];
    [|destruct (exits options)]; simpl.
  - split; [|split].
    + split; [discriminate | intros [t []]].
    + split; [discriminate|]. intros [[|e pre] H]; discriminate.
    + intros t [].
  - split; [|split].
    + split; [eauto | reflexivity].
    + split; [|reflexivity]. intros _.
      exists [ConsoleError (formatErrorMessage (v :: m))]. reflexivity.
    + intros t [H|[H|[]]]; discriminate.
  - split; [|split].
    + split; [discriminate|]. intros [t [H|[]]]. discriminate.
    + split; [discriminate|]. intros [[|e [|e' pre]] H]; discriminate.
    + intros t [H|[]]. inversion H; subst. split; [reflexivity|].
      eexists. repeat split.
Qed.

(* ================================================================== *)
(** ** The block tells the names *)

Section BlockNames.

Lemma app_inv_head_string (s a b : string) : s ++ a = s ++ b -> a = b.
Proof.
  induction s as [|c s IH]; simpl; intros H; [exact H|].
  inversion H. auto.
Qed.

Lemma entries_inj (m1 m2 : list string) :
  map (fun v => marker ++ v) m1 = map (fun v => marker ++ v) m2 -> m1 = m2.
Proof.
  revert m2. induction m1 as [|v m1 IH]; intros [|w m2] H;
    try discriminate; [reflexivity|].
  cbn [map] in H.
  assert (Hv : marker ++ v = marker ++ w) by congruence.
  assert (Hm : map (fun v => marker ++ v) m1 = map (fun v => marker ++ v) m2)
    by congruence.
  apply app_inv_head_string in Hv. subst w. f_equal. auto.
Qed.

(** The lines between the two separator lines. *)
Lemma lines_formatErrorMessage_any (missing : list string) :
  forallb no_LF missing = true ->
  lines (formatErrorMessage missing)
  = ([""; banner; separator]
       ++ match missing with
          | [] => [""]
          | _ :: _ => map (fun v => (marker ++ v)%string) missing
          end
       ++ [separator; ""])%list.
Proof.
  intros H. destruct missing as [|v m].
  - vm_compute. reflexivity.
  - apply lines_formatErrorMessage; [discriminate | exact H].
Qed.

End BlockNames.

(** X13. Two different lists of names, none of which holds a line feed,
    are never formatted to the same text. *)
Theorem formatErrorMessage_distinct (m1 m2 : list string) :
  forallb no_LF m1 = true ->
  forallb no_LF m2 = true ->
  m1 <> m2 ->
  formatErrorMessage m1 <> formatErrorMessage m2.
Proof.
  intros H1 H2 Hne E. apply Hne.
  apply (f_equal lines) in E.
  rewrite !lines_formatErrorMessage_any in E by assumption.
  apply app_inv_head, app_inv_tail in E.
  destruct m1 as [|v1 m1], m2 as [|v2 m2].
  - reflexivity.
  - cbn [map] in E. inversion E.
  - cbn [map] in E. inversion E.
  - apply entries_inj. exact E.
Qed.

Lemma formatErrorMessage_distinct_witness :
  formatErrorMessage ["API_KEY"; "SECRET"]
  <> formatErrorMessage ["SECRET"; "API_KEY"].
Proof.
  apply (@formatErrorMessage_distinct
           ["API_KEY"; "SECRET"] ["SECRET"; "API_KEY"]);
    [reflexivity | reflexivity | discriminate].
Defined.

(* ================================================================== *)
(** ** Prefixes *)

Section Prefixes.

Lemma prefix_trans (a b c : string) :
  String.prefix a b = true -> String.prefix b c = true ->
  String.prefix a c = true.
Proof.
  revert b c. induction a as [|x a IH]; intros b c Hab Hbc.
  - destruct c; reflexivity.
  - destruct b as [|y b]; [discriminate|].
    destruct c as [|z c]; [discriminate|].
    simpl in *.
    destruct (ascii_dec x y) as [->|]; [|discriminate].
    destruct (ascii_dec y z) as [->|]; [|discriminate].
    eapply IH; eauto.
Qed.

End Prefixes.

(** X14. With a non-empty prefix that no required name starts with,
    nothing is checked: [checkEnv] is silent and returns [success: true]
    whatever the source and the environment hold. *)
Theorem no_prefixed_name_passes (process_env : Env)
  (requiredVars : list string) (options : CheckEnvOptions) (p : string) :
  prefix options = Some p ->
  p <> "" ->
  (forall v, In v requiredVars -> startsWith v p = false) ->
  checkEnv process_env requiredVars options = silent.
Proof.
  intros Hp Hne Hnone. rewrite checkEnv_conclude. apply conclude_silent.
  destruct (missingVars process_env requiredVars options) as [|v m] eqn:E;
    [reflexivity|].
  assert (Hin : In v (missingVars process_env requiredVars options))
    by (rewrite E; left; reflexivity).
  apply missingVars_In in Hin as (Hv & Hk & _).
  rewrite Hp, kept_prefix, (Hnone v Hv) in Hk by exact Hne. discriminate.
Qed.

Lemma no_prefixed_name_passes_witness :
  checkEnv (literal []) ["API_URLs"; "TTL"; "REDIRECT_PATH"; "MAX_RETRIES"]
    {| prefix := Some "PREFIX_"; source := None; exitOnError := Some false |}
  = silent.
Proof.
  apply (@no_prefixed_name_passes (literal [])
           ["API_URLs"; "TTL"; "REDIRECT_PATH"; "MAX_RETRIES"]
           {| prefix := Some "PREFIX_"; source := None;
              exitOnError := Some false |}
           "PREFIX_" eq_refl).
  - discriminate.
  - intros v [<-|[<-|[<-|[<-|[]]]]]; reflexivity.
Defined.

(** X15. A longer prefix checks less: when [q] starts with the non-empty
    prefix [p], the names missing under [q] are among the names missing
    under [p], and a call that is silent under [p] is silent under [q]. *)
Theorem longer_prefix_checks_less (process_env : Env)
  (requiredVars : list string) (s : option Env) (eo : option bool)
  (p q : string) :
  p <> "" ->
  startsWith q p = true ->
  incl (missingVars process_env requiredVars
          {| prefix := Some q; source := s; exitOnError := eo |})
       (missingVars process_env requiredVars
          {| prefix := Some p; source := s; exitOnError := eo |})
  /\ (checkEnv process_env requiredVars
        {| prefix := Some p; source := s; exitOnError := eo |} = silent ->
      checkEnv process_env requiredVars
        {| prefix := Some q; source := s; exitOnError := eo |} = silent).
Proof.
  intros Hp Hqp.
  assert (Hq : q <> "").
  { intros ->. destruct p; [congruence | discriminate]. }
  assert (Hincl :
            incl (missingVars process_env requiredVars
                    {| prefix := Some q; source := s; exitOnError := eo |})
              (missingVars process_env requiredVars
                 {| prefix := Some p; source := s; exitOnError := eo |})).
  { intros v Hv. apply missingVars_In in Hv as (Hv & Hk & Ht).
    apply missingVars_In. cbn [prefix source] in *.
    rewrite kept_prefix in * by assumption.
    rewrite (checked_value_prefix _ v Hp Hq).
    repeat split; try assumption.
    unfold startsWith in *. eapply prefix_trans; eauto. }
  split; [exact Hincl|].
  rewrite !checkEnv_conclude, !conclude_silent. intros E.
  rewrite E in Hincl. apply incl_l_nil. exact Hincl.
Qed.

Lemma longer_prefix_checks_less_witness :
  incl (missingVars (literal []) ["NEXT_A"; "NEXT_PUBLIC_B"; "C"]
          {| prefix := Some "NEXT_PUBLIC_"; source := None;
             exitOnError := None |})
       (missingVars (literal []) ["NEXT_A"; "NEXT_PUBLIC_B"; "C"]
          {| prefix := Some "NEXT_"; source := None; exitOnError := None |}).
Proof.
  destruct (@longer_prefix_checks_less (literal [])
              ["NEXT_A"; "NEXT_PUBLIC_B"; "C"]
              None None "NEXT_" "NEXT_PUBLIC_") as [Hincl _].
  - discriminate.
  - reflexivity.
  - exact Hincl.
Defined.

(** Without the condition on line feeds two lists can share a text. *)
Example formatErrorMessage_line_feed_clash :
  formatErrorMessage ["A" ++ LF ++ marker ++ "B"]
  = formatErrorMessage ["A"; "B"].
Proof. reflexivity. Qed.
